(** * Verification of the text-analysis core of design-analysis-api (src/main.py)

    Python strings are sequences of Unicode code points; we model a string
    as [list Z].  Literals of the source (keywords, report fragments) are
    written as Rocq string literals, which hold UTF-8 bytes, and decoded to
    code points by [u]. *)

From Stdlib Require Import Ascii String ZArith List Bool Lia.
Import ListNotations.
Open Scope Z_scope.

(** ** Characters and strings *)

Definition text := list Z.

(** UTF-8 decoding of a byte sequence into code points. *)
Fixpoint utf8_decode (bs : list Z) : list Z :=
  match bs with
  | [] => []
  | b1 :: r1 =>
      if b1 <? 128 then b1 :: utf8_decode r1
      else match r1 with
           | [] => [b1]
           | b2 :: r2 =>
               if b1 <? 224 then ((b1 - 192) * 64 + (b2 - 128)) :: utf8_decode r2
               else match r2 with
                    | [] => [b1; b2]
                    | b3 :: r3 =>
                        if b1 <? 240 then
                          ((b1 - 224) * 4096 + (b2 - 128) * 64 + (b3 - 128)) :: utf8_decode r3
                        else match r3 with
                             | [] => [b1; b2; b3]
                             | b4 :: r4 =>
                                 ((b1 - 240) * 262144 + (b2 - 128) * 4096
                                  + (b3 - 128) * 64 + (b4 - 128)) :: utf8_decode r4
                             end
                    end
           end
  end.

Definition u (s : string) : text :=
  utf8_decode (map (fun a => Z.of_nat (nat_of_ascii a)) (list_ascii_of_string s)).

Definition in_range (lo hi c : Z) : bool := (lo <=? c) && (c <=? hi).

(** [str.isspace] / regex [\s] on str patterns. *)
Definition is_space (c : Z) : bool :=
  in_range 9 13 c || in_range 28 32 c || (c =? 133) || (c =? 160)
  || (c =? 5760) || in_range 8192 8202 c || (c =? 8232) || (c =? 8233)
  || (c =? 8239) || (c =? 8287) || (c =? 12288).

(** Regex [\w] on str patterns: alphanumerics and underscore.  Exact on
    ASCII and Latin-1; above Latin-1 the table counts everything as a word
    character except whitespace, the punctuation and symbol blocks
    U+2000..U+2BFF, CJK punctuation U+3000..U+303F, variation selectors
    U+FE00..U+FE0F and the emoji planes from U+1F000. *)
Definition is_word (c : Z) : bool :=
  if c <? 256 then
    in_range 48 57 c || in_range 65 90 c || (c =? 95) || in_range 97 122 c
    || (c =? 170) || (c =? 178) || (c =? 179) || (c =? 181) || (c =? 185)
    || (c =? 186) || in_range 188 190 c || in_range 192 214 c
    || in_range 216 246 c || in_range 248 255 c
  else
    negb (is_space c || in_range 8192 11263 c || in_range 12288 12351 c
          || in_range 65024 65039 c || (126976 <=? c)).

(** [str.lower] on one code point: ASCII and Latin-1 capitals. *)
Definition lower_char (c : Z) : Z :=
  if in_range 65 90 c || (in_range 192 222 c && negb (c =? 215)) then c + 32 else c.

Definition lower (s : text) : text := map lower_char s.

(** Title case of one code point, as [str.capitalize] applies to the
    first character ('ß' becomes "Ss"). *)
Definition title_char (c : Z) : text :=
  if in_range 97 122 c || (in_range 224 254 c && negb (c =? 247)) then [c - 32]
  else if c =? 223 then [83; 115]
  else if c =? 255 then [376]
  else if c =? 181 then [924]
  else [c].

(** [str.capitalize] *)
Definition capitalize (s : text) : text :=
  match s with
  | [] => []
  | c :: r => title_char c ++ lower r
  end.

Fixpoint lstrip (s : text) : text :=
  match s with
  | [] => []
  | c :: r => if is_space c then lstrip r else s
  end.

(** [str.strip] *)
Definition strip (s : text) : text := rev (lstrip (rev (lstrip s))).

Fixpoint is_prefix (p s : text) : bool :=
  match p, s with
  | [], _ => true
  | a :: p', b :: s' => (a =? b) && is_prefix p' s'
  | _ :: _, [] => false
  end.

(** Python's [needle in haystack] for strings. *)
Fixpoint contains (s needle : text) : bool :=
  match s with
  | [] => is_prefix needle []
  | _ :: r => is_prefix needle s || contains r needle
  end.

Fixpoint mem_text (x : text) (l : list text) : bool :=
  match l with
  | [] => false
  | y :: l' => is_prefix x y && is_prefix y x || mem_text x l'
  end.

(** ** Keyword tables *)

Definition CATEGORY_KEYWORDS : list (string * list text) :=
  [("contrast"%string, map u (["contraste"; "legibilidad"; "contrast"; "readability"])%string);
   ("spacing"%string, map u (["espaciado"; "padding"; "margin"; "spacing"; "espacio"])%string);
   ("alignment"%string, map u (["alineación"; "grid"; "alignment"; "alinear"; "centrado"])%string);
   ("hierarchy"%string, map u (["jerarquía"; "tamaño"; "hierarchy"; "tamaños"; "size"; "peso"])%string)].

Definition SEVERITY_critical : list text :=
  map u (["crítico"; "malo"; "terrible"; "grave"; "critical"; "bad"; "poor"])%string.

Definition SEVERITY_warning : list text :=
  map u (["mejorable"; "necesita"; "debería"; "warning"; "improve"; "needs"])%string.

Definition POSITIVE_WORDS : list text :=
  map u (["bien"; "bueno"; "correcto"; "excelente"; "perfecto"; "good";
         "excellent"; "correct"; "great"; "nice"; "properly"; "adecuado"])%string.

Definition NEGATIVE_WORDS : list text :=
  map u (["mal"; "malo"; "problema"; "issue"; "error"; "falta"; "bad";
         "wrong"; "problem"; "missing"; "poor"; "incorrect"])%string.

(** ** count_keyword_matches *)

(** Regex [\b] between two (optional) characters. *)
Definition word_opt (c : option Z) : bool :=
  match c with Some c => is_word c | None => false end.

Definition boundary (prev next : option Z) : bool :=
  xorb (word_opt prev) (word_opt next).

Definition last_opt (prev : option Z) (kw : text) : option Z :=
  match rev kw with [] => prev | c :: _ => Some c end.

(** Does [\b kw \b] match at the current position, [prev] being the
    character before it and [s] the rest of the text? *)
Definition match_at (kw : text) (prev : option Z) (s : text) : bool :=
  boundary prev (hd_error s) && is_prefix kw s
  && boundary (last_opt prev kw) (nth_error s (length kw)).

(** [re.findall] of [\b kw \b], returning the start positions of the
    non-overlapping matches, scanning left to right; [skip] counts the
    characters of the last match still to be stepped over. *)
Fixpoint scan (kw : text) (skip : nat) (prev : option Z) (s : text) (pos : nat)
  : list nat :=
  match skip with
  | S k =>
      match s with
      | [] => []
      | c :: r => scan kw k (Some c) r (S pos)
      end
  | O =>
      match s with
      | [] => if match_at kw prev [] then [pos] else []
      | c :: r =>
          if match_at kw prev s
          then pos :: scan kw (length kw - 1) (Some c) r (S pos)
          else scan kw 0 (Some c) r (S pos)
      end
  end.

Definition findall_kw (text_lower kw : text) : list nat :=
  scan (lower kw) 0 None text_lower 0.

Definition count_keyword_matches (t : text) (keywords : list text) : nat :=
  let text_lower := lower t in
  fold_left (fun count keyword => (count + length (findall_kw text_lower keyword))%nat)
            keywords 0%nat.

(** Occurrences of one keyword, as the spec counts them. *)
Definition kw_count (t kw : text) : nat := length (findall_kw (lower t) kw).

Definition clamp (x : Z) : Z := Z.max 0 (Z.min 100 x).

Definition calculate_score (t : text) : Z :=
  let positive_count := count_keyword_matches t POSITIVE_WORDS in
  let negative_count := count_keyword_matches t NEGATIVE_WORDS in
  let score := 70 in
  let score := score + Z.of_nat positive_count * 10 in
  let score := score - Z.of_nat negative_count * 10 in
  clamp score.

(** ** calculate_category_scores

    The category map is a Python dict filled in the order of
    [CATEGORY_KEYWORDS]; we model it as an association list in that order.
    The source computes [int(50 + (ratio * 50))] with the float
    [ratio = positive / (positive + negative)] in [0, 1]; the truncation of
    this non-negative quantity is the floor of the exact value, written
    [50 + (50 * positive) / (positive + negative)] with [Z.div]. *)
Definition category_score (t : text) (keywords : list text) : Z :=
  let mentions := count_keyword_matches t keywords in
  if (mentions =? 0)%nat then 75
  else
    let positive_nearby := Z.of_nat (count_keyword_matches t POSITIVE_WORDS) in
    let negative_nearby := Z.of_nat (count_keyword_matches t NEGATIVE_WORDS) in
    let base_score :=
      if 0 <? positive_nearby + negative_nearby
      then 50 + (positive_nearby * 50) / (positive_nearby + negative_nearby)
      else 70 in
    clamp base_score.

Definition calculate_category_scores (t : text) : list (string * Z) :=
  map (fun '(category, keywords) => (category, category_score t keywords))
      CATEGORY_KEYWORDS.

(** ** determine_severity and extract_issues *)

Record Issue := mkIssue { severity : string; issue_text : text }.

(** [any(word in s for word in words)] *)
Definition any_in (s : text) (words : list text) : bool :=
  existsb (fun word => contains s word) words.

Definition determine_severity (sentence : text) : string :=
  let sentence_lower := lower sentence in
  if any_in sentence_lower SEVERITY_critical then "critical"
  else if any_in sentence_lower SEVERITY_warning then "warning"
  else "info".

Definition is_punct (c : Z) : bool := (c =? 46) || (c =? 33) || (c =? 63).

Definition cons_head (c : Z) (ps : list text) : list text :=
  match ps with
  | [] => [[c]]
  | p :: ps' => (c :: p) :: ps'
  end.

Definition next_is_space (r : text) : bool :=
  match r with d :: _ => is_space d | [] => false end.

(** [re.split(r'[.!?]\s+', s)]: [sep] is set while the whitespace run of
    a separator is being consumed (the [\s+] is greedy). *)
Fixpoint splitp (sep : bool) (s : text) : list text :=
  match s with
  | [] => [[]]
  | c :: r =>
      if sep && is_space c then splitp true r
      else if is_punct c && next_is_space r
      then [] :: splitp true r
      else cons_head c (splitp false r)
  end.

Definition split_sentences (s : text) : list text := splitp false s.

Definition has_negative (sentence : text) : bool :=
  any_in (lower sentence) (NEGATIVE_WORDS ++ SEVERITY_critical ++ SEVERITY_warning).

Fixpoint issues_of (sentences : list text) : list Issue :=
  match sentences with
  | [] => []
  | sentence :: rest =>
      let sentence := strip sentence in
      match sentence with
      | [] => issues_of rest
      | _ :: _ =>
          if has_negative sentence
          then mkIssue (determine_severity sentence) sentence :: issues_of rest
          else issues_of rest
      end
  end.

Definition extract_issues (t : text) : list Issue := issues_of (split_sentences t).

(** ** extract_suggestions *)

(** The three patterns share the shape
    [(?:alt1|alt2|...)[:\s]+([^.!?]+[.!?]?)]; a pattern is its list of
    alternatives.  They are matched against the lowercased text; with the
    keywords all lowercase, [re.IGNORECASE] is modelled as exact comparison. *)
Definition suggestion_patterns : list (list text) :=
  [map u (["se recomienda"; "recomendación"; "sugiero"; "sugerencia"; "debería";
           "podría mejorar"; "considera"; "intenta"])%string;
   map u (["recommend"; "suggestion"; "should"; "could improve"; "consider"; "try"])%string;
   map u (["mejorar"; "improve"; "fix"; "arreglar"; "cambiar"; "change"])%string].

Definition colon_or_space (c : Z) : bool := (c =? 58) || is_space c.

Fixpoint lead_count (f : Z -> bool) (s : text) : nat :=
  match s with
  | [] => 0%nat
  | c :: r => if f c then S (lead_count f r) else 0%nat
  end.

Fixpoint take_while (f : Z -> bool) (s : text) : text :=
  match s with
  | [] => []
  | c :: r => if f c then c :: take_while f r else []
  end.

(** [([^.!?]+[.!?]?)] at the start of [r]: the group and its length. *)
Definition group_at (r : text) : option (text * nat) :=
  match r with
  | c :: _ =>
      if is_punct c then None
      else
        let body := take_while (fun d => negb (is_punct d)) r in
        let g := match nth_error r (List.length body) with
                 | Some p => body ++ [p]
                 | None => body
                 end in
        Some (g, List.length g)
  | [] => None
  end.

(** [[:\s]+([^.!?]+[.!?]?)]: the greedy [[:\s]+] gives back at most one
    character, which [[^.!?]+] then takes. Returns the group and the length
    of the whole tail match. *)
Definition tail_match (s : text) : option (text * nat) :=
  let k := lead_count colon_or_space s in
  let attempt (j : nat) :=
    match group_at (skipn j s) with
    | Some (g, n) => Some (g, (j + n)%nat)
    | None => None
    end in
  match k with
  | O => None
  | S k' =>
      match attempt k with
      | Some x => Some x
      | None => match k' with O => None | S _ => attempt k' end
      end
  end.

(** Ordered alternation at the current position. *)
Fixpoint try_alts (alts : list text) (s : text) : option (text * nat) :=
  match alts with
  | [] => None
  | a :: alts' =>
      if is_prefix a s then
        match tail_match (skipn (List.length a) s) with
        | Some (g, n) => Some (g, (List.length a + n)%nat)
        | None => try_alts alts' s
        end
      else try_alts alts' s
  end.

(** [re.findall] of a pattern: the groups of the successive non-overlapping
    matches, [skip] counting the characters of the last match still to be
    stepped over. *)
Fixpoint findall_pat (alts : list text) (skip : nat) (s : text) : list text :=
  match s with
  | [] => []
  | _ :: r =>
      match skip with
      | S k => findall_pat alts k r
      | O =>
          match try_alts alts s with
          | Some (g, n) => g :: findall_pat alts (n - 1) r
          | None => findall_pat alts 0 r
          end
      end
  end.

Definition is_nonempty (s : text) : bool :=
  match s with [] => false | _ => true end.

Definition add_suggestion (suggestions : list text) (m : text) : list text :=
  let clean_suggestion := capitalize (strip m) in
  if is_nonempty clean_suggestion && negb (mem_text clean_suggestion suggestions)
  then suggestions ++ [clean_suggestion]
  else suggestions.

Definition pattern_stage (t : text) : list text :=
  let text_lower := lower t in
  fold_left (fun suggestions pattern =>
               fold_left add_suggestion (findall_pat pattern 0 text_lower) suggestions)
            suggestion_patterns [].

Definition improvement_keywords : list text :=
  map u (["mejorar"; "cambiar"; "ajustar"; "corregir"; "improve"; "change"; "adjust"; "fix"])%string.

Fixpoint fallback_stage (sentences : list text) (suggestions : list text) : list text :=
  match sentences with
  | [] => suggestions
  | sentence :: rest =>
      if any_in (lower sentence) improvement_keywords then
        let clean := capitalize (strip sentence) in
        if is_nonempty clean && (10 <? List.length clean)%nat then
          let suggestions := suggestions ++ [clean] in
          if (5 <=? List.length suggestions)%nat then suggestions
          else fallback_stage rest suggestions
        else fallback_stage rest suggestions
      else fallback_stage rest suggestions
  end.

Definition extract_suggestions (t : text) : list text :=
  let suggestions := pattern_stage t in
  let suggestions :=
    match suggestions with
    | [] => fallback_stage (split_sentences t) []
    | _ => suggestions
    end in
  firstn 5 suggestions.

(** ** format_output *)

Definition nl : text := [10].

(** [str(n)] for an integer. *)
Fixpoint digits_aux (fuel : nat) (n : Z) (acc : text) : text :=
  match fuel with
  | O => acc
  | S f =>
      let acc := (48 + n mod 10) :: acc in
      if n <? 10 then acc else digits_aux f (n / 10) acc
  end.

Definition show_Z (n : Z) : text :=
  let digits := digits_aux (S (Z.to_nat (Z.log2 (Z.abs n)))) (Z.abs n) [] in
  if n <? 0 then 45 :: digits else digits.

(** [s * n] *)
Definition repeat_text (s : text) (n : Z) : text := concat (repeat s (Z.to_nat n)).

Definition is_cased (c : Z) : bool := in_range 65 90 c || in_range 97 122 c.

Definition upper_char (c : Z) : Z := if in_range 97 122 c then c - 32 else c.

(** [str.title] on ASCII keys. *)
Fixpoint title_aux (prev_cased : bool) (s : text) : text :=
  match s with
  | [] => []
  | c :: r =>
      (if prev_cased then lower_char c else upper_char c) :: title_aux (is_cased c) r
  end.

Definition category_names : list (string * text) :=
  [("contrast", u "🎨 Contraste"); ("spacing", u "📏 Espaciado");
   ("alignment", u "📐 Alineación"); ("hierarchy", u "🏗️ Jerarquía")]%string.

Fixpoint lookup_name (key : string) (l : list (string * text)) : option text :=
  match l with
  | [] => None
  | (k, v) :: l' => if String.eqb k key then Some v else lookup_name key l'
  end.

Definition category_line (kv : string * Z) : text :=
  let '(key, value) := kv in
  let name := match lookup_name key category_names with
              | Some n => n
              | None => title_aux false (u key)
              end in
  let bar := repeat_text (u "█"%string) (value / 10)
             ++ repeat_text (u "░"%string) (10 - value / 10) in
  u "**"%string ++ name ++ u ":** "%string ++ bar ++ u " `"%string ++ show_Z value
  ++ u "/100`"%string ++ nl.

Definition issue_line (i : Issue) : text := u "- "%string ++ issue_text i ++ nl.

Definition severity_block (heading : string) (sev : string) (issues : list Issue) : text :=
  match filter (fun i => String.eqb (severity i) sev) issues with
  | [] => []
  | l => u heading ++ nl ++ concat (map issue_line l) ++ nl
  end.

Fixpoint numbered (i : Z) (suggestions : list text) : text :=
  match suggestions with
  | [] => []
  | s :: rest => show_Z i ++ u ". "%string ++ s ++ nl ++ numbered (i + 1) rest
  end.

Definition score_emoji (score : Z) : text :=
  if 90 <=? score then u "🌟"%string
  else if 75 <=? score then u "✅"%string
  else if 60 <=? score then u "⚠️"%string
  else u "🔴"%string.

Definition score_line (score : Z) : text :=
  u "## "%string ++ score_emoji score ++ u " Score General: **"%string ++ show_Z score
  ++ u "/100**"%string ++ nl ++ nl.

Definition issues_heading : text := u "### ⚠️ Issues Encontrados"%string.
Definition suggestions_heading : text := u "### 💡 Sugerencias de Mejora"%string.

Definition format_output (score : Z) (categories : list (string * Z))
    (issues : list Issue) (suggestions : list text) : text :=
  let output := u "# 📊 ANÁLISIS DE DISEÑO"%string ++ nl ++ nl in
  let output := output ++ score_line score in
  let output := output ++ u "### 📈 Scores por Categoría"%string ++ nl ++ nl in
  let output := output ++ concat (map category_line categories) in
  let output := output ++ nl in
  let output :=
    match issues with
    | [] => output
    | _ :: _ =>
        output ++ issues_heading ++ nl ++ nl
        ++ severity_block "#### 🔴 CRÍTICO" "critical" issues
        ++ severity_block "#### ⚠️ ADVERTENCIAS" "warning" issues
        ++ severity_block "#### ℹ️ INFORMACIÓN" "info" issues
    end in
  let output :=
    match suggestions with
    | [] => output
    | _ :: _ =>
        output ++ suggestions_heading ++ nl ++ nl ++ numbered 1 suggestions ++ nl
    end in
  output ++ u "---"%string ++ nl ++ u "*Análisis generado por Design Analysis API*"%string.

(** ** analyze_text *)

Record AnalysisOutput := mkAnalysisOutput {
  score : Z;
  categories : list (string * Z);
  issues : list Issue;
  suggestions : list text;
  formatted_output : text }.

Definition analyze_text (analysis_text : text) : AnalysisOutput :=
  let t := analysis_text in
  let score := calculate_score t in
  let categories := calculate_category_scores t in
  let issues := extract_issues t in
  let suggestions := extract_suggestions t in
  let formatted := format_output score categories issues suggestions in
  mkAnalysisOutput score categories issues suggestions formatted.

(** ** Definitions used in the statements *)

Definition prev_at (t : text) (p : nat) : option Z :=
  match p with O => None | S q => nth_error t q end.

Ltac zcase :=
  repeat match goal with
  | |- context [?a <=? ?b] => destruct (Z.leb_spec a b)
  | |- context [?a =? ?b] => destruct (Z.eqb_spec a b)
  end; simpl; try lia.

(** Per-keyword sums of the positive and negative words. *)
Definition positive_total (t : text) : nat := list_sum (map (kw_count t) POSITIVE_WORDS).
Definition negative_total (t : text) : nat := list_sum (map (kw_count t) NEGATIVE_WORDS).

Definition ten_good : text :=
  u "good good good good good good good good good good"%string.

(** The category score as the spec describes it: 75 without mentions, 70
    with mentions but no sentiment words, otherwise [50 + ratio * 50] taken
    as an integer, [ratio] being the document-wide positive share. *)
Definition category_score_claimed (t : text) (keywords : list text) : Z :=
  if (count_keyword_matches t keywords =? 0)%nat then 75
  else
    let p := Z.of_nat (positive_total t) in
    let n := Z.of_nat (negative_total t) in
    if p + n =? 0 then 70 else 50 + (50 * p) / (p + n).

Definition substr (w s : text) : Prop := exists a b, s = a ++ w ++ b.

Definition contrast_spacing : text := u "The contrast is good but the spacing is bad."%string.

(** Is there a '.', '!' or '?' immediately followed by whitespace? *)
Fixpoint has_split_point (s : text) : bool :=
  match s with
  | c :: ((d :: _) as r) => (is_punct c && is_space d) || has_split_point r
  | _ => false
  end.

Definition this_is_bad : text := u "This is bad."%string.

Definition clean_match (m : text) : text := capitalize (strip m).

(** Deduplication as the spec states it: an element is kept exactly when
    it does not occur earlier in the list. *)
Fixpoint keep_first_seen (earlier l : list text) : list text :=
  match l with
  | [] => []
  | x :: r => (if mem_text x earlier then [] else [x]) ++ keep_first_seen (earlier ++ [x]) r
  end.

Definition all_pattern_matches (t : text) : list text :=
  concat (map (fun pattern => findall_pat pattern 0 (lower t)) suggestion_patterns).

Definition stage1_claimed (t : text) : list text :=
  keep_first_seen [] (filter is_nonempty (map clean_match (all_pattern_matches t))).

Definition fallback_candidates (sentences : list text) : list text :=
  filter (fun c => is_nonempty c && (10 <? List.length c)%nat)
         (map clean_match
              (filter (fun s => any_in (lower s) improvement_keywords) sentences)).

Definition suggestions_claimed (t : text) : list text :=
  firstn 5 (match stage1_claimed t with
            | [] => firstn 5 (fallback_candidates (split_sentences t))
            | l => l
            end).

Definition is_bar_char (c : Z) : bool := (c =? 9608) || (c =? 9617).

Definition contrast_and_spacing : text := u "Good contrast and spacing"%string.

Definition url_like : text := u "see example.com for details"%string.

Definition severity_count (sev : string) (issues : list Issue) : nat :=
  List.length (filter (fun i => String.eqb (severity i) sev) issues).

Definition adjust_grid : text := u "We must adjust the grid layout."%string.

(** No sentence terminator before the last character. *)
Fixpoint punct_only_last (g : text) : bool :=
  match g with
  | [] | [_] => true
  | c :: r => negb (is_punct c) && punct_only_last r
  end.

Definition good_group (g : text) : Prop := g <> [] /\ punct_only_last g = true.

(** The text rebuilt from its sentences [p0; p1; ...] and the separators
    [sep0; sep1; ...] that [re.split] removed between them. *)
Fixpoint join_sentences (ps seps : list text) : text :=
  match ps, seps with
  | p :: ps', sep :: seps' => p ++ sep ++ join_sentences ps' seps'
  | p :: _, [] => p
  | [], _ => []
  end.

(** A match of [[.!?]\s+]: one terminator and a non-empty whitespace run. *)
Definition is_sep (sep : text) : bool :=
  match sep with
  | c :: ((_ :: _) as ws) => is_punct c && forallb is_space ws
  | _ => false
  end.

(** * Proofs *)

(** ** Examples of the embedding on concrete inputs *)

Example split_ex :
  split_sentences (u "a. b!  c?d. ")%string = [u "a"; u "b"; u "c?d"; []]%string.
Proof. vm_compute. reflexivity. Qed.

Example sugg_ex :
  extract_suggestions (u "You should use more padding. Try: bigger fonts! Consider  .")%string
  = [u "Use more padding."; u "Bigger fonts!"; u "."]%string.
Proof. vm_compute. reflexivity. Qed.

Example findall_ex1 :
  map (fun p => findall_pat p 0 (lower (u "retry:x. fix fix: a"))) suggestion_patterns
  = [[]; [u "x."]; [u "fix: a"]]%string.
Proof. vm_compute. reflexivity. Qed.

Example findall_ex2 :
  map (fun p => findall_pat p 0 (lower (u "consider: . try  ?"))) suggestion_patterns
  = [[]; [u " ."; u " ?"]; []]%string.
Proof. vm_compute. reflexivity. Qed.

Example findall_ex3 :
  map (fun p => findall_pat p 0 (lower (app (u "Debería   mejorar el contraste. cambiar"%string) (10 :: u "  ya!!"%string))))
      suggestion_patterns
  = [[u "mejorar el contraste."]; []; [u "el contraste."; u "ya!"]]%string.
Proof. vm_compute. reflexivity. Qed.

Example split_ex2 :
  split_sentences (app (u "a. . b?"%string) (9 :: 10 :: u " c"%string)) = [u "a"; []; u "b"; u "c"]%string.
Proof. vm_compute. reflexivity. Qed.

Example show_ex : map show_Z [0; 7; 70; 100; -12] = [u "0"; u "7"; u "70"; u "100"; u "-12"]%string.
Proof. vm_compute. reflexivity. Qed.

(** ** Keyword matching *)

Lemma skipn_step (t r : text) (c : Z) :
  forall pos, skipn pos t = c :: r -> skipn (S pos) t = r /\ nth_error t pos = Some c.
Proof.
  induction t as [| d t IH]; intros pos H.
  - destruct pos; discriminate.
  - destruct pos as [| pos]; simpl in *.
    + injection H as -> ->. auto.
    + apply IH. exact H.
Qed.

(** Every position reported by [scan] is a position where [\b kw \b]
    matches in the whole text [t]. *)
Lemma scan_sound (kw t : text) :
  forall s skip pos prev p,
    skipn pos t = s -> prev = prev_at t pos ->
    In p (scan kw skip prev s pos) ->
    match_at kw (prev_at t p) (skipn p t) = true.
Proof.
  induction s as [| c r IH]; intros skip pos prev p Hs Hp Hin.
  - destruct skip; simpl in Hin; [| contradiction].
    destruct (match_at kw prev []) eqn:E; [| contradiction].
    destruct Hin as [<- | []]. subst. rewrite Hs. exact E.
  - destruct (skipn_step t r c pos Hs) as [Hr Hc].
    destruct skip as [| k]; simpl in Hin.
    + destruct (match_at kw prev (c :: r)) eqn:E.
      * destruct Hin as [<- | Hin].
        -- subst. rewrite Hs. exact E.
        -- eapply IH; [exact Hr | simpl; rewrite Hc; reflexivity | exact Hin].
      * eapply IH; [exact Hr | simpl; rewrite Hc; reflexivity | exact Hin].
    + eapply IH; [exact Hr | simpl; rewrite Hc; reflexivity | exact Hin].
Qed.

Lemma fold_count_sum (f : text -> nat) (l : list text) :
  forall acc, fold_left (fun count k => (count + f k)%nat) l acc = (acc + list_sum (map f l))%nat.
Proof.
  induction l as [| k l IH]; intros acc; simpl.
  - lia.
  - rewrite IH. lia.
Qed.

Lemma count_keyword_matches_sum (t : text) (kws : list text) :
  count_keyword_matches t kws = list_sum (map (kw_count t) kws).
Proof.
  unfold count_keyword_matches, kw_count. rewrite fold_count_sum. reflexivity.
Qed.

Lemma lower_char_idem (c : Z) : lower_char (lower_char c) = lower_char c.
Proof.
  unfold lower_char, in_range.
  destruct (Z.leb_spec 65 c), (Z.leb_spec c 90), (Z.leb_spec 192 c),
           (Z.leb_spec c 222), (Z.eqb_spec c 215); simpl; zcase.
Qed.

Lemma lower_idem (s : text) : lower (lower s) = lower s.
Proof.
  unfold lower. rewrite map_map. apply map_ext. apply lower_char_idem.
Qed.

Lemma match_at_word_edges (kw : text) (prev : option Z) (s : text) :
  match_at kw prev s = true ->
  is_prefix kw s = true /\
  (forall c, hd_error kw = Some c -> is_word c = true -> word_opt prev = false) /\
  (forall c, last_opt None kw = Some c -> is_word c = true ->
             word_opt (nth_error s (List.length kw)) = false).
Proof.
  unfold match_at, boundary. intros H.
  apply andb_true_iff in H as [H Hend]. apply andb_true_iff in H as [Hstart Hpre].
  split; [exact Hpre | split].
  - intros c Hc Hw. destruct kw as [| k kw']; [discriminate |].
    injection Hc as ->. destruct s as [| d s']; [discriminate |].
    simpl in Hpre. apply andb_true_iff in Hpre as [Hcd _]. apply Z.eqb_eq in Hcd. subst d.
    simpl in Hstart. rewrite Hw in Hstart. destruct (word_opt prev); auto.
  - intros c Hc Hw. unfold last_opt in Hc, Hend.
    destruct (rev kw) as [| k r]; [discriminate |].
    injection Hc as ->. simpl in Hend. rewrite Hw in Hend.
    destruct (word_opt (nth_error s (List.length kw))); auto.
Qed.

(** ** Claims on the keyword matcher and the overall score *)

(** C5: keyword counting is case-insensitive and whole-word: the total is
    the sum of the per-keyword counts; counting on the lowercased text or
    with lowercased keywords changes nothing; every reported occurrence is
    the exact (lowercased) keyword, phrase included, at that position,
    never preceded by a word character when the keyword starts with one and
    never followed by a word character when it ends with one; "badge" does
    not count for "bad" and "bad design" counts once. *)
Theorem C5_whole_word_matching :
  (forall t kws, count_keyword_matches t kws = list_sum (map (kw_count t) kws)) /\
  (forall t kws, count_keyword_matches (lower t) kws = count_keyword_matches t kws /\
                 count_keyword_matches t (map lower kws) = count_keyword_matches t kws) /\
  (forall t kw p, In p (findall_kw (lower t) kw) ->
     is_prefix (lower kw) (skipn p (lower t)) = true /\
     (forall c, hd_error (lower kw) = Some c -> is_word c = true ->
                word_opt (prev_at (lower t) p) = false) /\
     (forall c, last_opt None (lower kw) = Some c -> is_word c = true ->
                word_opt (nth_error (lower t) (p + List.length (lower kw))) = false)) /\
  kw_count (u "badge"%string) (u "bad"%string) = 0%nat /\
  kw_count (u "bad design"%string) (u "bad"%string) = 1%nat.
Proof.
  split; [exact count_keyword_matches_sum |].
  split.
  { intros t kws. rewrite !count_keyword_matches_sum. split.
    - f_equal. apply map_ext. intros kw. unfold kw_count. rewrite lower_idem. reflexivity.
    - rewrite map_map. f_equal. apply map_ext. intros kw.
      unfold kw_count, findall_kw. rewrite lower_idem. reflexivity. }
  split.
  { intros t kw p Hin. unfold findall_kw in Hin.
    pose proof (scan_sound (lower kw) (lower t) (lower t) 0 0 None p eq_refl eq_refl Hin) as H.
    apply match_at_word_edges in H as (H1 & H2 & H3).
    split; [exact H1 | split; [exact H2 |]].
    intros c Hc Hw. rewrite <- nth_error_skipn. exact (H3 c Hc Hw). }
  split; vm_compute; reflexivity.
Qed.

(** C1: the overall score is 70, plus 10 per whole-word occurrence of a
    positive word, minus 10 per whole-word occurrence of a negative word,
    clamped to [0, 100]; ten positive occurrences and no negative one give
    exactly 100. *)
Theorem C1_calculate_score_formula :
  (forall t, calculate_score t
             = clamp (70 + 10 * Z.of_nat (positive_total t) - 10 * Z.of_nat (negative_total t))) /\
  (forall t, positive_total t = 10%nat -> negative_total t = 0%nat -> calculate_score t = 100).
Proof.
  assert (F : forall t, calculate_score t
             = clamp (70 + 10 * Z.of_nat (positive_total t) - 10 * Z.of_nat (negative_total t))).
  { intros t. unfold calculate_score, positive_total, negative_total.
    rewrite !count_keyword_matches_sum. f_equal. lia. }
  split; [exact F |].
  intros t Hp Hn. rewrite F, Hp, Hn. reflexivity.
Qed.

Lemma C1_witness :
  positive_total ten_good = 10%nat /\ negative_total ten_good = 0%nat
  /\ calculate_score ten_good = 100.
Proof.
  assert (Hp : positive_total ten_good = 10%nat) by (vm_compute; reflexivity).
  assert (Hn : negative_total ten_good = 0%nat) by (vm_compute; reflexivity).
  split; [exact Hp | split; [exact Hn |]].
  exact (proj2 C1_calculate_score_formula ten_good Hp Hn).
Defined.

Lemma C5_witness :
  In 0%nat (findall_kw (lower (u "bad design"%string)) (u "bad"%string)) /\
  is_prefix (lower (u "bad"%string)) (skipn 0 (lower (u "bad design"%string))) = true.
Proof.
  assert (H : In 0%nat (findall_kw (lower (u "bad design"%string)) (u "bad"%string)))
    by (vm_compute; left; reflexivity).
  split; [exact H |].
  destruct C5_whole_word_matching as (_ & _ & Hpos & _).
  exact (proj1 (Hpos _ _ _ H)).
Defined.

(** ** Category scores *)

Lemma ratio_part_bounds (p n : Z) :
  0 <= p -> 0 <= n -> 0 < p + n -> 0 <= (p * 50) / (p + n) <= 50.
Proof.
  intros Hp Hn Hpn. split.
  - apply Z.div_pos; lia.
  - apply Z.div_le_upper_bound; lia.
Qed.

Lemma category_score_spec (t : text) (kws : list text) :
  category_score t kws = category_score_claimed t kws /\
  50 <= category_score t kws <= 100.
Proof.
  unfold category_score, category_score_claimed, positive_total, negative_total.
  rewrite <- !count_keyword_matches_sum.
  destruct (count_keyword_matches t kws =? 0)%nat; [lia |].
  set (p := Z.of_nat (count_keyword_matches t POSITIVE_WORDS)).
  set (n := Z.of_nat (count_keyword_matches t NEGATIVE_WORDS)).
  assert (Hp : 0 <= p) by apply Nat2Z.is_nonneg.
  assert (Hn : 0 <= n) by apply Nat2Z.is_nonneg.
  destruct (Z.ltb_spec 0 (p + n)) as [Hpos | Hz].
  - destruct (ratio_part_bounds p n Hp Hn Hpos) as [B1 B2].
    replace (p + n =? 0) with false by (symmetry; apply Z.eqb_neq; lia).
    rewrite (Z.mul_comm 50 p).
    unfold clamp. split; lia.
  - replace (p + n =? 0) with true by (symmetry; apply Z.eqb_eq; lia).
    unfold clamp. split; lia.
Qed.

(** C2: the category map always has exactly the four categories, in the
    order contrast, spacing, alignment, hierarchy; each score is 75 without
    mentions, 70 with mentions but no positive or negative word, and
    otherwise [50 + ratio * 50] as an integer with the document-wide ratio;
    every score lies in [0, 100]. *)
Theorem C2_category_scores :
  forall t,
    map fst (calculate_category_scores t)
      = ["contrast"; "spacing"; "alignment"; "hierarchy"]%string /\
    calculate_category_scores t
      = map (fun '(c, kws) => (c, category_score_claimed t kws)) CATEGORY_KEYWORDS /\
    Forall (fun cv => 0 <= snd cv <= 100) (calculate_category_scores t).
Proof.
  intros t. split; [reflexivity |]. split.
  - unfold calculate_category_scores. apply map_ext. intros [c kws].
    rewrite (proj1 (category_score_spec t kws)). reflexivity.
  - unfold calculate_category_scores. apply Forall_map.
    apply Forall_forall. intros [c kws] _. simpl.
    pose proof (proj2 (category_score_spec t kws)). lia.
Qed.

(** C9: every category score is at least 50 (and at most 100): it is 75
    without mentions, 70 with mentions but no sentiment words, and
    [50 + ratio * 50] in [50, 100] otherwise; so the lower clamp bound 0 is
    never reached. *)
Theorem C9_category_scores_at_least_50 :
  forall t,
    Forall (fun cv => 50 <= snd cv <= 100) (calculate_category_scores t) /\
    (forall kws, category_score t kws = category_score_claimed t kws /\
                 50 <= category_score t kws <= 100).
Proof.
  intros t. split.
  - unfold calculate_category_scores. apply Forall_map.
    apply Forall_forall. intros [c kws] _. exact (proj2 (category_score_spec t kws)).
  - intros kws. exact (category_score_spec t kws).
Qed.

(** ** Substring containment *)

Lemma is_prefix_spec (p s : text) : is_prefix p s = true <-> exists b, s = p ++ b.
Proof.
  revert s. induction p as [| a p IH]; intros s; simpl.
  - split; [intros _; exists s; reflexivity | auto].
  - destruct s as [| c s].
    + split; [discriminate | intros [b Hb]; discriminate].
    + rewrite andb_true_iff, Z.eqb_eq, IH. split.
      * intros [-> [b ->]]. exists b. reflexivity.
      * intros [b Hb]. injection Hb as -> ->. split; [reflexivity | exists b; reflexivity].
Qed.

Lemma contains_spec (s w : text) : contains s w = true <-> substr w s.
Proof.
  unfold substr. induction s as [| c r IH]; simpl.
  - rewrite is_prefix_spec. split.
    + intros [b Hb]. exists [], b. exact Hb.
    + intros [a [b Hab]]. destruct a; [| discriminate].
      exists b. exact Hab.
  - rewrite orb_true_iff, is_prefix_spec, IH. split.
    + intros [[b Hb] | [a [b Hab]]].
      * exists [], b. exact Hb.
      * exists (c :: a), b. rewrite Hab. reflexivity.
    + intros [a [b Hab]]. destruct a as [| d a].
      * left. exists b. exact Hab.
      * right. injection Hab as -> Hr. exists a, b. exact Hr.
Qed.

Lemma any_in_spec (s : text) (ws : list text) :
  any_in s ws = true <-> exists w, In w ws /\ substr w s.
Proof.
  unfold any_in. rewrite existsb_exists. split.
  - intros [w [Hin Hc]]. exists w. split; [exact Hin | apply contains_spec; exact Hc].
  - intros [w [Hin Hc]]. exists w. split; [exact Hin | apply contains_spec; exact Hc].
Qed.

Lemma any_in_false (s : text) (ws : list text) :
  any_in s ws = false <-> ~ exists w, In w ws /\ substr w s.
Proof.
  rewrite <- any_in_spec. destruct (any_in s ws); split; congruence.
Qed.

Lemma issues_of_Forall (P : Issue -> Prop) (sentences : list text) :
  (forall s, P (mkIssue (determine_severity s) s)) ->
  Forall P (issues_of sentences).
Proof.
  intros HP. induction sentences as [| s rest IH]; simpl; [constructor |].
  destruct (strip s) as [| c r]; [exact IH |].
  destruct (has_negative (c :: r)); [constructor; [apply HP | exact IH] | exact IH].
Qed.

(** ** Claims on issue extraction *)

(** C7: severity is assigned by first matching list: "critical" when the
    lowercased sentence contains a critical keyword, else "warning" when it
    contains a warning keyword, else "info"; every emitted issue carries the
    severity of its sentence; and "info" is reached by the sentence "There
    is an issue here", which contains the negative word "issue". *)
Theorem C7_severity_first_match :
  (forall s,
     (determine_severity s = "critical"%string <->
        exists w, In w SEVERITY_critical /\ substr w (lower s)) /\
     (determine_severity s = "warning"%string <->
        (~ exists w, In w SEVERITY_critical /\ substr w (lower s)) /\
        exists w, In w SEVERITY_warning /\ substr w (lower s)) /\
     (determine_severity s = "info"%string <->
        (~ exists w, In w SEVERITY_critical /\ substr w (lower s)) /\
        (~ exists w, In w SEVERITY_warning /\ substr w (lower s)))) /\
  (forall t, Forall (fun i => severity i = determine_severity (issue_text i)) (extract_issues t)) /\
  (let t := u "There is an issue here"%string in
   substr (u "issue"%string) (lower t) /\ In (u "issue"%string) NEGATIVE_WORDS /\
   extract_issues t = [mkIssue "info" t]).
Proof.
  split; [| split].
  - intros s. unfold determine_severity.
    destruct (any_in (lower s) SEVERITY_critical) eqn:Ec;
      [pose proof (proj1 (any_in_spec _ _) Ec) as Hc | pose proof (proj1 (any_in_false _ _) Ec) as Hc];
    [| destruct (any_in (lower s) SEVERITY_warning) eqn:Ew;
       [pose proof (proj1 (any_in_spec _ _) Ew) as Hw | pose proof (proj1 (any_in_false _ _) Ew) as Hw]];
    repeat split; intros; try discriminate; try tauto; try reflexivity;
      repeat match goal with H : _ /\ _ |- _ => destruct H end; tauto.
  - intros t. unfold extract_issues. apply issues_of_Forall. intros s. reflexivity.
  - simpl. split; [| split].
    + exists (u "there is an "%string), (u " here"%string). vm_compute. reflexivity.
    + vm_compute. tauto.
    + vm_compute. reflexivity.
Qed.

(** C3, as stated, fails: the final '.' of the scenario input is not
    followed by whitespace, so the input is a single sentence. *)
Lemma C3_counterexample : List.length (split_sentences contrast_spacing) <> 2%nat.
Proof. vm_compute. discriminate. Qed.

(** C3 (amended): the scenario input is one sentence (its final '.' kept),
    giving exactly one issue, of severity "critical", whose text is the
    whole input; the overall score is 70. *)
Theorem C3_scenario_amended :
  split_sentences contrast_spacing = [contrast_spacing] /\
  extract_issues contrast_spacing = [mkIssue "critical" contrast_spacing] /\
  calculate_score contrast_spacing = 70.
Proof. vm_compute. repeat split. Qed.

(** C8: on the empty input the pipeline gives score 70, all four
    categories 75, no issues, no suggestions, and a non-empty report that
    contains the overall-score line and neither the issues nor the
    suggestions section heading. *)
Theorem C8_empty_input :
  let r := analyze_text [] in
  score r = 70 /\
  categories r = [("contrast", 75); ("spacing", 75); ("alignment", 75); ("hierarchy", 75)]%string /\
  issues r = [] /\ suggestions r = [] /\
  formatted_output r <> [] /\
  contains (formatted_output r) (score_line 70) = true /\
  contains (formatted_output r) issues_heading = false /\
  contains (formatted_output r) suggestions_heading = false.
Proof. vm_compute. repeat split; discriminate. Qed.

(** C10: substring-based issue detection flags text that the whole-word
    matcher ignores: "This looks normal" has no whole-word negative or
    severity keyword (its "normal" only contains "mal"), yet it yields one
    "info" issue, and its overall score stays the base 70. *)
Theorem C10_substring_issue_detection :
  exists t,
    substr (u "normal"%string) (lower t) /\
    count_keyword_matches t (NEGATIVE_WORDS ++ SEVERITY_critical ++ SEVERITY_warning) = 0%nat /\
    extract_issues t <> [] /\
    Forall (fun i => severity i = "info"%string) (extract_issues t) /\
    calculate_score t = 70.
Proof.
  exists (u "This looks normal"%string). split; [| split; [| split; [| split]]].
  - exists (u "this looks "%string), []. vm_compute. reflexivity.
  - vm_compute. reflexivity.
  - vm_compute. discriminate.
  - vm_compute. repeat constructor.
  - vm_compute. reflexivity.
Qed.

(** ** Sentence splitting *)

Lemma has_split_point_cons (c : Z) (p : text) :
  has_split_point (c :: p) = (is_punct c && next_is_space p) || has_split_point p.
Proof. destruct p; simpl; [rewrite andb_false_r |]; reflexivity. Qed.

Lemma has_split_point_app (a b : text) :
  has_split_point (a ++ b) = false ->
  has_split_point a = false /\ has_split_point b = false.
Proof.
  induction a as [| c a IH]; simpl app; intros H; [split; [reflexivity | exact H] |].
  rewrite has_split_point_cons in H. apply orb_false_iff in H as [H1 H2].
  destruct (IH H2) as [Ha Hb]. split; [| exact Hb].
  rewrite has_split_point_cons, Ha, orb_false_r.
  destruct a as [| d a]; simpl in *; [apply andb_false_r | exact H1].
Qed.

Lemma splitp_nonempty (b : bool) (s : text) : splitp b s <> [].
Proof.
  revert b. induction s as [| c r IH]; intros b; simpl; [discriminate |].
  destruct (b && is_space c); [apply IH |].
  destruct (is_punct c && next_is_space r) eqn:E; [discriminate |].
  unfold cons_head. destruct (splitp false r); discriminate.
Qed.

Lemma splitp_head (r : text) :
  match splitp false r with
  | p :: _ => p = [] \/ next_is_space p = next_is_space r
  | [] => True
  end.
Proof.
  destruct r as [| d r']; simpl; [left; reflexivity |].
  destruct (is_punct d && next_is_space r'); [left; reflexivity |].
  unfold cons_head. destruct (splitp false r'); right; reflexivity.
Qed.

Lemma splitp_no_split_point (b : bool) (s : text) :
  Forall (fun p => has_split_point p = false) (splitp b s).
Proof.
  revert b. induction s as [| c r IH]; intros b; simpl; [repeat constructor |].
  destruct (b && is_space c); [apply IH |].
  destruct (is_punct c && next_is_space r) eqn:E; [constructor; [reflexivity | apply IH] |].
  pose proof (splitp_head r) as Hh. pose proof (IH false) as Hf.
  unfold cons_head. destruct (splitp false r) as [| p ps]; [constructor; [reflexivity | constructor] |].
  inversion Hf as [| ? ? Hp Hps]; subst. constructor; [| exact Hps].
  rewrite has_split_point_cons, Hp, orb_false_r.
  destruct Hh as [-> | ->]; [apply andb_false_r | exact E].
Qed.

Lemma lstrip_suffix (s : text) : exists w, s = w ++ lstrip s.
Proof.
  induction s as [| c r [w Hw]]; simpl; [exists []; reflexivity |].
  destruct (is_space c); [exists (c :: w); rewrite Hw at 1; reflexivity | exists []; reflexivity].
Qed.

Lemma strip_infix (s : text) : exists a b, s = a ++ strip s ++ b.
Proof.
  destruct (lstrip_suffix s) as [w1 H1].
  destruct (lstrip_suffix (rev (lstrip s))) as [w2 H2].
  exists w1, (rev w2). unfold strip.
  rewrite H1 at 1. f_equal.
  rewrite <- (rev_involutive (lstrip s)) at 1. rewrite H2 at 1.
  rewrite rev_app_distr. reflexivity.
Qed.

Lemma splitp_snoc (p : Z) (Hp : is_space p = false) :
  forall s b, exists init last,
    splitp b s = init ++ [last] /\ splitp b (s ++ [p]) = init ++ [last ++ [p]].
Proof.
  induction s as [| c r IH]; intros b.
  - exists [], []. simpl. rewrite Hp, andb_false_r, andb_false_r. split; reflexivity.
  - assert (En : next_is_space (r ++ [p]) = next_is_space r)
      by (destruct r; simpl; [exact Hp | reflexivity]).
    simpl. rewrite En.
    destruct (b && is_space c); [apply IH |].
    destruct (is_punct c && next_is_space r).
    + destruct (IH true) as (init & last & H1 & H2).
      exists ([] :: init), last. rewrite H1, H2. split; reflexivity.
    + destruct (IH false) as (init & last & H1 & H2).
      rewrite H1, H2. destruct init as [| q init].
      * exists [], (c :: last). split; reflexivity.
      * exists ((c :: q) :: init), last. split; reflexivity.
Qed.

Lemma splitp_struct (s : text) :
  forall b, exists ws seps,
    forallb is_space ws = true /\ (b = false -> ws = []) /\
    (b = true -> next_is_space s = true -> ws <> []) /\
    s = ws ++ join_sentences (splitp b s) seps /\
    S (length seps) = length (splitp b s) /\
    Forall (fun sep => is_sep sep = true) seps /\
    Forall (fun p => next_is_space p = false) (tl (splitp b s)) /\
    (b = true -> next_is_space (hd [] (splitp b s)) = false).
Proof.
  induction s as [| c r IH]; intros b.
  - exists [], []. split; [reflexivity |]. split; [reflexivity |].
    split; [intros _ H; discriminate |]. split; [reflexivity |].
    split; [reflexivity |]. split; [constructor |]. split; [constructor |].
    intros _; reflexivity.
  - cbn [splitp]. destruct (b && is_space c) eqn:Eb.
    + apply andb_true_iff in Eb as [-> Hc].
      destruct (IH true) as (ws & seps & Hws & _ & _ & Hs & Hl & Hseps & Htl & Hhd).
      exists (c :: ws), seps. split; [simpl; rewrite Hc, Hws; reflexivity |].
      split; [discriminate |]. split; [intros _ _; discriminate |].
      split; [simpl; f_equal; exact Hs |].
      split; [exact Hl |]. split; [exact Hseps |]. split; [exact Htl | exact Hhd].
    + destruct (is_punct c && next_is_space r) eqn:Ep.
      * apply andb_true_iff in Ep as [Hp Hn].
        destruct (IH true) as (ws & seps & Hws & _ & Hne & Hs & Hl & Hseps & Htl & Hhd).
        pose proof (splitp_nonempty true r) as HP.
        remember (splitp true r) as P eqn:EP.
        exists [], ((c :: ws) :: seps).
        split; [reflexivity |]. split; [reflexivity |].
        split; [intros -> Hc; simpl in Eb, Hc; congruence |].
        split; [simpl; f_equal; exact Hs |].
        split; [simpl; lia |].
        split.
        { constructor; [| exact Hseps].
          destruct ws as [| w ws']; [exfalso; exact (Hne eq_refl Hn eq_refl) |].
          simpl. rewrite Hp. exact Hws. }
        split; [| intros _; reflexivity].
        cbn [tl]. destruct P as [| p P']; [congruence |].
        constructor; [exact (Hhd eq_refl) | exact Htl].
      * destruct (IH false) as (ws & seps & _ & Hw0 & _ & Hs & Hl & Hseps & Htl & _).
        rewrite (Hw0 eq_refl) in Hs. rewrite app_nil_l in Hs.
        pose proof (splitp_nonempty false r) as HP.
        remember (splitp false r) as P eqn:EP.
        destruct P as [| p P']; [congruence |].
        exists [], seps. unfold cons_head.
        split; [reflexivity |]. split; [reflexivity |].
        split; [intros -> Hc; simpl in Eb, Hc; congruence |].
        split; [rewrite app_nil_l; destruct seps; simpl in *; f_equal; exact Hs |].
        split; [exact Hl |]. split; [exact Hseps |]. split; [exact Htl |].
        intros ->. simpl in Eb. simpl. exact Eb.
Qed.

Lemma lstrip_snoc (c : Z) (x : text) :
  is_space c = false -> lstrip (x ++ [c]) = lstrip x ++ [c].
Proof.
  intros Hc. induction x as [| d x IH]; simpl; [rewrite Hc; reflexivity |].
  destruct (is_space d); [exact IH | reflexivity].
Qed.

Lemma strip_snoc (c : Z) (x : text) :
  is_space c = false -> strip (x ++ [c]) = lstrip x ++ [c].
Proof.
  intros Hc. unfold strip. rewrite (lstrip_snoc c x Hc), rev_app_distr.
  change (rev [c] ++ rev (lstrip x)) with (c :: rev (lstrip x)).
  cbn [lstrip]. rewrite Hc. cbn [rev]. rewrite rev_involutive. reflexivity.
Qed.

Lemma issues_of_app (a b : list text) : issues_of (a ++ b) = issues_of a ++ issues_of b.
Proof.
  induction a as [| s a IH]; [reflexivity |]. simpl.
  destruct (strip s) as [| c r]; [exact IH |].
  destruct (has_negative (c :: r)); simpl; rewrite IH; reflexivity.
Qed.

(** C4, as stated, fails: a '.' ending the text is not followed by
    whitespace, is no split point, and stays in the issue's text. *)
Lemma C4_counterexample :
  extract_issues this_is_bad = [mkIssue "critical" this_is_bad] /\
  last (issue_text (mkIssue "critical" this_is_bad)) 0 = 46.
Proof. vm_compute. split; reflexivity. Qed.

(** C4 (amended): the text is split at each '.', '!' or '?' followed by
    whitespace, the punctuation and its whole whitespace run being
    dropped: the text is the sentences joined by separators, each a
    terminator followed by a non-empty whitespace run, no sentence contains
    a terminator followed by whitespace, and no sentence after the first
    starts with whitespace; so no issue text contains such a pair.
    A character that is not whitespace, in particular a '.', '!' or '?',
    ending the text is no split point: it stays at the end of the last
    sentence, and the last issue, when that sentence gives one, is that
    sentence stripped, ending with the character. *)
Theorem C4_split_amended :
  (forall t, exists seps,
     t = join_sentences (split_sentences t) seps /\
     S (length seps) = length (split_sentences t) /\
     Forall (fun sep => is_sep sep = true) seps /\
     Forall (fun p => has_split_point p = false) (split_sentences t) /\
     Forall (fun p => next_is_space p = false) (tl (split_sentences t))) /\
  (forall t, Forall (fun i => has_split_point (issue_text i) = false) (extract_issues t)) /\
  (forall s p, is_space p = false ->
     exists init last, split_sentences s = init ++ [last] /\
                       split_sentences (s ++ [p]) = init ++ [last ++ [p]] /\
                       strip (last ++ [p]) = lstrip last ++ [p] /\
                       extract_issues (s ++ [p])
                       = issues_of init
                         ++ (if has_negative (lstrip last ++ [p])
                             then [mkIssue (determine_severity (lstrip last ++ [p]))
                                           (lstrip last ++ [p])]
                             else [])).
Proof.
  split; [| split].
  - intros t. unfold split_sentences.
    destruct (splitp_struct t false) as (ws & seps & _ & Hw0 & _ & Hs & Hl & Hseps & Htl & _).
    rewrite (Hw0 eq_refl) in Hs.
    exists seps. split; [exact Hs |]. split; [exact Hl |]. split; [exact Hseps |].
    split; [apply splitp_no_split_point | exact Htl].
  - intros t. unfold extract_issues.
    pose proof (splitp_no_split_point false t) as H.
    unfold split_sentences. induction (splitp false t) as [| s rest IH]; simpl; [constructor |].
    inversion H as [| ? ? Hs Hrest]; subst.
    destruct (strip_infix s) as (a & b & Hab).
    assert (Hst : has_split_point (strip s) = false).
    { rewrite Hab in Hs. apply has_split_point_app in Hs as [_ Hs].
      apply has_split_point_app in Hs as [Hs _]. exact Hs. }
    destruct (strip s) as [| c r]; [exact (IH Hrest) |].
    destruct (has_negative (c :: r)); [constructor; [exact Hst | exact (IH Hrest)] | exact (IH Hrest)].
  - intros s p Hp. destruct (splitp_snoc p Hp s false) as (init & last & H1 & H2).
    exists init, last. split; [exact H1 |]. split; [exact H2 |].
    split; [exact (strip_snoc p last Hp) |].
    unfold extract_issues, split_sentences. rewrite H2, issues_of_app. f_equal.
    cbn [issues_of]. rewrite (strip_snoc p last Hp).
    destruct (lstrip last); reflexivity.
Qed.

Lemma C4_witness :
  is_space 46 = false /\
  exists init last, split_sentences (u "Bad. Worse"%string) = init ++ [last] /\
                    split_sentences (u "Bad. Worse"%string ++ [46]) = init ++ [last ++ [46]] /\
                    strip (last ++ [46]) = lstrip last ++ [46] /\
                    extract_issues (u "Bad. Worse"%string ++ [46])
                    = issues_of init
                      ++ (if has_negative (lstrip last ++ [46])
                          then [mkIssue (determine_severity (lstrip last ++ [46]))
                                        (lstrip last ++ [46])]
                          else []).
Proof.
  assert (H : is_space 46 = false) by reflexivity.
  split; [exact H |].
  exact (proj2 (proj2 C4_split_amended) (u "Bad. Worse"%string) 46 H).
Defined.

(** ** Suggestions *)

Lemma is_prefix_antisym (x y : text) :
  is_prefix x y && is_prefix y x = true <-> x = y.
Proof.
  rewrite andb_true_iff, !is_prefix_spec. split.
  - intros [[b1 H1] [b2 H2]].
    assert (Hl : List.length b1 = 0%nat).
    { apply (f_equal (@List.length Z)) in H1. apply (f_equal (@List.length Z)) in H2.
      rewrite length_app in H1, H2. lia. }
    destruct b1; [| discriminate]. rewrite app_nil_r in H1. symmetry. exact H1.
  - intros ->. split; exists []; rewrite app_nil_r; reflexivity.
Qed.

Lemma mem_text_spec (x : text) (l : list text) : mem_text x l = true <-> In x l.
Proof.
  induction l as [| y l IH]; simpl; [split; [discriminate | tauto] |].
  rewrite orb_true_iff, is_prefix_antisym, IH. split; intros [H | H]; auto.
Qed.

Lemma fold_add_suggestion (ms : list text) :
  forall acc earlier, (forall y, In y acc <-> In y earlier) ->
  fold_left add_suggestion ms acc
  = acc ++ keep_first_seen earlier (filter is_nonempty (map clean_match ms)).
Proof.
  induction ms as [| m ms IH]; intros acc earlier Heq; simpl; [rewrite app_nil_r; reflexivity |].
  unfold add_suggestion at 2. fold (clean_match m).
  destruct (is_nonempty (clean_match m)) eqn:Ene; simpl; [| apply IH; exact Heq].
  destruct (mem_text (clean_match m) acc) eqn:Ma.
  - assert (Me : mem_text (clean_match m) earlier = true)
      by (apply mem_text_spec, Heq, mem_text_spec; exact Ma).
    rewrite Me. simpl. apply IH. intros y. rewrite in_app_iff, Heq.
    apply mem_text_spec in Me. simpl. split; [tauto | intros [H | [<- | []]]; auto].
  - assert (Me : mem_text (clean_match m) earlier = false).
    { destruct (mem_text (clean_match m) earlier) eqn:E; [| reflexivity].
      apply mem_text_spec, Heq, mem_text_spec in E. congruence. }
    rewrite Me. simpl.
    rewrite (IH (acc ++ [clean_match m]) (earlier ++ [clean_match m]));
      [rewrite <- app_assoc; reflexivity |].
    intros y. rewrite !in_app_iff, Heq. tauto.
Qed.

Lemma fold_left_concat_map {A B : Type} (f : A -> B -> A) (g : list text -> list B)
    (l : list (list text)) :
  forall acc, fold_left f (concat (map g l)) acc
              = fold_left (fun acc x => fold_left f (g x) acc) l acc.
Proof.
  induction l as [| x l IH]; intros acc; simpl; [reflexivity |].
  rewrite fold_left_app. apply IH.
Qed.

Lemma pattern_stage_claimed (t : text) : pattern_stage t = stage1_claimed t.
Proof.
  transitivity (fold_left add_suggestion (all_pattern_matches t) []).
  - unfold all_pattern_matches. rewrite fold_left_concat_map. reflexivity.
  - unfold stage1_claimed. rewrite (fold_add_suggestion _ [] []); [reflexivity | tauto].
Qed.

Lemma fallback_candidates_cons (s : text) (rest : list text) :
  fallback_candidates (s :: rest)
  = (if any_in (lower s) improvement_keywords
     then if is_nonempty (clean_match s) && (10 <? List.length (clean_match s))%nat
          then [clean_match s] else []
     else []) ++ fallback_candidates rest.
Proof.
  unfold fallback_candidates. cbn [filter map].
  destruct (any_in (lower s) improvement_keywords); cbn [filter map]; [| reflexivity].
  destruct (is_nonempty (clean_match s) && (10 <? List.length (clean_match s))%nat); reflexivity.
Qed.

Lemma fallback_stage_firstn (sentences : list text) :
  forall acc, (List.length acc < 5)%nat ->
  fallback_stage sentences acc
  = acc ++ firstn (5 - List.length acc) (fallback_candidates sentences).
Proof.
  induction sentences as [| s rest IH]; intros acc Hlen.
  - cbn [fallback_stage]. unfold fallback_candidates. cbn [filter map].
    rewrite firstn_nil, app_nil_r. reflexivity.
  - cbn [fallback_stage]. rewrite fallback_candidates_cons.
    change (capitalize (strip s)) with (clean_match s).
    destruct (any_in (lower s) improvement_keywords); [| apply IH; exact Hlen].
    destruct (is_nonempty (clean_match s) && (10 <? List.length (clean_match s))%nat);
      [| apply IH; exact Hlen].
    cbn [app]. rewrite length_app. cbn [List.length].
    destruct (Nat.leb_spec 5 (List.length acc + 1)) as [H5 | H5].
    + replace (5 - List.length acc)%nat with 1%nat by lia. reflexivity.
    + rewrite IH by (rewrite length_app; cbn [List.length]; lia).
      rewrite length_app, <- app_assoc. cbn [List.length app].
      replace (5 - List.length acc)%nat with (S (5 - (List.length acc + 1)))%nat by lia.
      reflexivity.
Qed.

Lemma keep_first_seen_props (l : list text) :
  forall earlier,
    NoDup (keep_first_seen earlier l) /\
    (forall x, In x (keep_first_seen earlier l) <-> In x l /\ ~ In x earlier).
Proof.
  induction l as [| y r IH]; intros earlier; simpl.
  - split; [constructor | tauto].
  - destruct (IH (earlier ++ [y])) as [Hnd Hin].
    destruct (mem_text y earlier) eqn:My.
    + apply mem_text_spec in My. simpl. split; [exact Hnd |].
      intros x. rewrite Hin, in_app_iff. simpl.
      destruct (list_eq_dec Z.eq_dec x y) as [-> | Hne]; [assert (y = y) by reflexivity; tauto |].
      assert (y <> x) by congruence. tauto.
    + assert (Hy : ~ In y earlier) by (rewrite <- mem_text_spec; congruence).
      simpl. split.
      * constructor; [| exact Hnd]. rewrite Hin, in_app_iff. simpl. tauto.
      * intros x. rewrite Hin, in_app_iff. simpl.
        destruct (list_eq_dec Z.eq_dec x y) as [-> | Hne]; [assert (y = y) by reflexivity; tauto |].
        assert (y <> x) by congruence. tauto.
Qed.

(** C6: at most five suggestions; the pattern stage keeps the stripped,
    capitalized, non-empty matches of the three patterns, in pattern order,
    each kept exactly when it does not equal an earlier one (so without
    duplicates and losing none); the fallback stage runs only when the
    pattern stage found nothing, and keeps the first five capitalized
    sentences longer than 10 characters containing an improvement keyword. *)
Theorem C6_extract_suggestions :
  forall t,
    (List.length (extract_suggestions t) <= 5)%nat /\
    pattern_stage t = stage1_claimed t /\
    extract_suggestions t = suggestions_claimed t /\
    NoDup (stage1_claimed t) /\
    (forall x, In x (stage1_claimed t)
               <-> In x (filter is_nonempty (map clean_match (all_pattern_matches t)))).
Proof.
  intros t.
  assert (Heq : extract_suggestions t = suggestions_claimed t).
  { unfold extract_suggestions, suggestions_claimed. rewrite pattern_stage_claimed.
    destruct (stage1_claimed t) as [| x l]; [| reflexivity].
    rewrite fallback_stage_firstn by (cbn; lia). reflexivity. }
  destruct (keep_first_seen_props
              (filter is_nonempty (map clean_match (all_pattern_matches t))) []) as [Hnd Hin].
  split; [unfold extract_suggestions; apply firstn_le_length |].
  split; [exact (pattern_stage_claimed t) |].
  split; [exact Heq |].
  split; [exact Hnd |].
  intros x. unfold stage1_claimed. rewrite Hin. simpl. tauto.
Qed.

(** * Further properties of the code *)

(** ** Overall score *)

Lemma calculate_score_clamp (t : text) :
  calculate_score t
  = clamp (70 + Z.of_nat (count_keyword_matches t POSITIVE_WORDS) * 10
              - Z.of_nat (count_keyword_matches t NEGATIVE_WORDS) * 10).
Proof. reflexivity. Qed.

(** The overall score is always a multiple of 10 between 0 and 100. *)
Theorem calculate_score_multiple_of_10 :
  forall t, exists k, 0 <= k <= 10 /\ calculate_score t = 10 * k.
Proof.
  intros t. rewrite calculate_score_clamp. unfold clamp.
  set (p := Z.of_nat (count_keyword_matches t POSITIVE_WORDS)).
  set (n := Z.of_nat (count_keyword_matches t NEGATIVE_WORDS)).
  destruct (Z.le_gt_cases 100 (70 + p * 10 - n * 10)).
  - exists 10. lia.
  - destruct (Z.le_gt_cases (70 + p * 10 - n * 10) 0).
    + exists 0. lia.
    + exists (7 + p - n). lia.
Qed.

(** The overall score is above, at or below the base 70 exactly when the
    text has more, as many or fewer positive than negative whole-word
    matches. *)
Theorem calculate_score_sign :
  forall t,
    let p := count_keyword_matches t POSITIVE_WORDS in
    let n := count_keyword_matches t NEGATIVE_WORDS in
    (calculate_score t = 70 <-> p = n) /\
    (70 < calculate_score t <-> (n < p)%nat) /\
    (calculate_score t < 70 <-> (p < n)%nat).
Proof.
  intros t p n. rewrite calculate_score_clamp. fold p n. unfold clamp.
  repeat split; intros; lia.
Qed.

(** Counting over two keyword lists adds up: a word present in both is
    counted once per list. *)
Theorem count_keyword_matches_app :
  forall t k1 k2,
    count_keyword_matches t (k1 ++ k2)
    = (count_keyword_matches t k1 + count_keyword_matches t k2)%nat.
Proof.
  intros t k1 k2. rewrite !count_keyword_matches_sum, map_app, list_sum_app. reflexivity.
Qed.

(** ** Category scores *)

(** All mentioned categories get the same score: it depends only on the
    document-wide positive and negative counts. *)
Theorem category_score_mentioned_equal :
  forall t kws1 kws2,
    count_keyword_matches t kws1 <> 0%nat ->
    count_keyword_matches t kws2 <> 0%nat ->
    category_score t kws1 = category_score t kws2.
Proof.
  intros t kws1 kws2 H1 H2. unfold category_score.
  apply Nat.eqb_neq in H1. apply Nat.eqb_neq in H2. rewrite H1, H2. reflexivity.
Qed.

Lemma category_score_mentioned_equal_witness :
  count_keyword_matches contrast_and_spacing (nth 0 (map snd CATEGORY_KEYWORDS) []) <> 0%nat /\
  count_keyword_matches contrast_and_spacing (nth 1 (map snd CATEGORY_KEYWORDS) []) <> 0%nat /\
  category_score contrast_and_spacing (nth 0 (map snd CATEGORY_KEYWORDS) [])
  = category_score contrast_and_spacing (nth 1 (map snd CATEGORY_KEYWORDS) []).
Proof.
  assert (H1 : count_keyword_matches contrast_and_spacing
                 (nth 0 (map snd CATEGORY_KEYWORDS) []) <> 0%nat)
    by (vm_compute; discriminate).
  assert (H2 : count_keyword_matches contrast_and_spacing
                 (nth 1 (map snd CATEGORY_KEYWORDS) []) <> 0%nat)
    by (vm_compute; discriminate).
  split; [exact H1 | split; [exact H2 |]].
  exact (category_score_mentioned_equal _ _ _ H1 H2).
Defined.

(** ** Severity *)

(** Severity and issue detection ignore case. *)
Theorem severity_case_insensitive :
  forall s, determine_severity (lower s) = determine_severity s /\
            has_negative (lower s) = has_negative s.
Proof.
  intros s. unfold determine_severity, has_negative. rewrite lower_idem. split; reflexivity.
Qed.

(** ** Sentence splitting and issues *)

(** A text with no '.', '!' or '?' followed by whitespace is one sentence,
    unchanged. *)
Theorem split_sentences_no_separator :
  forall s, has_split_point s = false -> split_sentences s = [s].
Proof.
  unfold split_sentences. induction s as [| c r IH]; intros H; [reflexivity |].
  rewrite has_split_point_cons in H. apply orb_false_iff in H as [H1 H2].
  simpl. rewrite H1, (IH H2). reflexivity.
Qed.

Lemma split_sentences_no_separator_witness :
  has_split_point url_like = false /\ split_sentences url_like = [url_like].
Proof.
  assert (H : has_split_point url_like = false) by (vm_compute; reflexivity).
  split; [exact H | exact (split_sentences_no_separator url_like H)].
Defined.

Lemma issues_of_texts (sentences : list text) :
  map issue_text (issues_of sentences)
  = filter (fun s => is_nonempty s && has_negative s) (map strip sentences).
Proof.
  induction sentences as [| s rest IH]; simpl; [reflexivity |].
  destruct (strip s) as [| c r]; simpl; [exact IH |].
  destruct (has_negative (c :: r)); simpl; rewrite IH; reflexivity.
Qed.

(** The issue texts are exactly the stripped sentences that are non-empty
    and contain a negative or severity keyword, in sentence order. *)
Theorem extract_issues_in_order :
  forall t,
    map issue_text (extract_issues t)
    = filter (fun s => is_nonempty s && has_negative s) (map strip (split_sentences t)).
Proof. intros t. apply issues_of_texts. Qed.

Lemma lstrip_head (s : text) :
  lstrip s = [] \/ exists c r, lstrip s = c :: r /\ is_space c = false.
Proof.
  induction s as [| c r IH]; simpl; [left; reflexivity |].
  destruct (is_space c) eqn:E; [exact IH | right; exists c, r; auto].
Qed.

Lemma lstrip_id (s : text) :
  (s = [] \/ exists c r, s = c :: r /\ is_space c = false) -> lstrip s = s.
Proof.
  intros [-> | (c & r & -> & Hc)]; simpl; [| rewrite Hc]; reflexivity.
Qed.

Lemma strip_idem (s : text) : strip (strip s) = strip s.
Proof.
  unfold strip at 2. set (a := lstrip s). set (L := lstrip (rev a)).
  destruct (lstrip_suffix (rev a)) as [w Hw]. fold L in Hw.
  assert (Ha : a = rev L ++ rev w)
    by (rewrite <- rev_app_distr, <- Hw, rev_involutive; reflexivity).
  assert (Hb : lstrip (rev L) = rev L).
  { apply lstrip_id. destruct (rev L) as [| c r] eqn:Er; [left; reflexivity | right].
    exists c, r. split; [reflexivity |].
    destruct (lstrip_head s) as [Hs | (d & r' & Hs & Hd)].
    - fold a in Hs. rewrite Ha in Hs. try rewrite Er in Hs. discriminate.
    - fold a in Hs. rewrite Ha in Hs. try rewrite Er in Hs. injection Hs as -> _. exact Hd. }
  unfold strip. rewrite Hb, rev_involutive. f_equal. apply lstrip_id.
  destruct (lstrip_head (rev a)) as [HL | (c & r & HL & Hc)];
    [left; exact HL | right; exists c, r; split; [exact HL | exact Hc]].
Qed.

(** Every issue text is non-empty, already stripped of surrounding
    whitespace, and contains (as a substring, ignoring case) a negative or
    severity keyword. *)
Theorem extract_issues_texts :
  forall t,
    Forall (fun i => issue_text i <> [] /\ strip (issue_text i) = issue_text i /\
                     has_negative (issue_text i) = true) (extract_issues t).
Proof.
  intros t. unfold extract_issues. induction (split_sentences t) as [| s rest IH]; simpl;
    [constructor |].
  pose proof (strip_idem s) as Hs.
  destruct (strip s) as [| c r]; [exact IH |].
  destruct (has_negative (c :: r)) eqn:E; [| exact IH].
  constructor; [simpl; split; [discriminate | split; [exact Hs | exact E]] | exact IH].
Qed.

(** The three severity groups of the report partition the issues of the
    pipeline: every issue lands in exactly one of them. *)
Theorem extract_issues_severity_partition :
  forall t,
    let is := extract_issues t in
    (severity_count "critical" is + severity_count "warning" is + severity_count "info" is)%nat
    = List.length is.
Proof.
  intros t is.
  assert (Hf : Forall (fun i => severity i = "critical"%string \/ severity i = "warning"%string
                                \/ severity i = "info"%string) is).
  { apply issues_of_Forall. intros s. simpl. unfold determine_severity.
    destruct (any_in (lower s) SEVERITY_critical); [auto |].
    destruct (any_in (lower s) SEVERITY_warning); auto. }
  clearbody is. unfold severity_count.
  induction Hf as [| i l Hi Hl IH]; [reflexivity |]. simpl.
  destruct Hi as [-> | [-> | ->]]; simpl; lia.
Qed.

(** ** Suggestions *)

Lemma in_firstn {A : Type} (n : nat) (l : list A) (x : A) : In x (firstn n l) -> In x l.
Proof.
  intros H. rewrite <- (firstn_skipn n l). apply in_or_app. left. exact H.
Qed.

Lemma fallback_candidates_In (sentences : list text) (c : text) :
  In c (fallback_candidates sentences) -> c <> [] /\ (10 < List.length c)%nat.
Proof.
  unfold fallback_candidates. rewrite filter_In. intros [_ H].
  apply andb_true_iff in H as [H1 H2]. apply Nat.ltb_lt in H2.
  split; [destruct c; discriminate | exact H2].
Qed.

(** Every suggestion is non-empty; when the pattern stage finds nothing,
    every (fallback) suggestion is longer than 10 characters. *)
Theorem extract_suggestions_nonempty :
  forall t,
    Forall (fun s => s <> [] /\ (pattern_stage t = [] -> (10 < List.length s)%nat))
           (extract_suggestions t).
Proof.
  intros t. apply Forall_forall. intros s Hs.
  unfold extract_suggestions in Hs. rewrite pattern_stage_claimed in Hs |- *.
  destruct (stage1_claimed t) as [| x l] eqn:E.
  - rewrite fallback_stage_firstn in Hs by (cbn; lia). rewrite app_nil_l in Hs.
    apply in_firstn, in_firstn, fallback_candidates_In in Hs. tauto.
  - rewrite <- E in Hs. apply in_firstn in Hs.
    destruct (keep_first_seen_props
                (filter is_nonempty (map clean_match (all_pattern_matches t))) []) as [_ Hin].
    unfold stage1_claimed in Hs. apply Hin in Hs as [Hs _].
    apply filter_In in Hs as [_ Hne]. split; [destruct s; discriminate | discriminate].
Qed.

Lemma extract_suggestions_nonempty_witness :
  pattern_stage adjust_grid = [] /\
  extract_suggestions adjust_grid = [u "We must adjust the grid layout."%string] /\
  Forall (fun s => s <> [] /\ (pattern_stage adjust_grid = [] -> (10 < List.length s)%nat))
         (extract_suggestions adjust_grid).
Proof.
  split; [vm_compute; reflexivity | split; [vm_compute; reflexivity |]].
  exact (extract_suggestions_nonempty adjust_grid).
Defined.

Lemma take_while_nonpunct (r : text) :
  Forall (fun c => is_punct c = false) (take_while (fun d => negb (is_punct d)) r).
Proof.
  induction r as [| c r IH]; simpl; [constructor |].
  destruct (is_punct c) eqn:E; simpl; [constructor | constructor; [exact E | exact IH]].
Qed.

Lemma punct_only_last_app (b e : text) :
  Forall (fun c => is_punct c = false) b -> (List.length e <= 1)%nat ->
  punct_only_last (b ++ e) = true.
Proof.
  intros Hb He. induction Hb as [| c b Hc Hb IH]; simpl.
  - destruct e as [| x [| y e]]; [reflexivity | reflexivity | simpl in He; lia].
  - rewrite IH. destruct b as [| x b]; simpl.
    + destruct e; [reflexivity | rewrite Hc; reflexivity].
    + rewrite Hc. reflexivity.
Qed.

Lemma group_at_good (r : text) (g : text) (n : nat) :
  group_at r = Some (g, n) -> good_group g.
Proof.
  unfold group_at. destruct r as [| c r']; [discriminate |].
  destruct (is_punct c) eqn:Ec; [discriminate |].
  intros H. injection H as Hg _. subst g.
  pose proof (take_while_nonpunct (c :: r')) as Hb.
  assert (Hne : take_while (fun d => negb (is_punct d)) (c :: r') <> [])
    by (simpl; rewrite Ec; discriminate).
  destruct (nth_error (c :: r') _) as [p |]; split.
  - intros Hc. apply app_eq_nil in Hc as [_ Hc]. discriminate.
  - apply punct_only_last_app; [exact Hb | simpl; lia].
  - exact Hne.
  - pose proof (punct_only_last_app _ [] Hb) as Hp. rewrite app_nil_r in Hp.
    apply Hp. simpl. lia.
Qed.

Lemma tail_match_good (s g : text) (n : nat) : tail_match s = Some (g, n) -> good_group g.
Proof.
  unfold tail_match. destruct (lead_count colon_or_space s) as [| k']; [discriminate |].
  destruct (group_at (skipn (S k') s)) as [[g1 n1] |] eqn:E1.
  - intros H. injection H as -> _. exact (group_at_good _ _ _ E1).
  - destruct k' as [| k'']; [discriminate |].
    destruct (group_at (skipn (S k'') s)) as [[g2 n2] |] eqn:E2; [| discriminate].
    intros H. injection H as -> _. exact (group_at_good _ _ _ E2).
Qed.

Lemma try_alts_good (alts : list text) (s g : text) (n : nat) :
  try_alts alts s = Some (g, n) -> good_group g.
Proof.
  induction alts as [| a alts IH]; simpl; [discriminate |].
  destruct (is_prefix a s); [| exact IH].
  destruct (tail_match (skipn (List.length a) s)) as [[g1 n1] |] eqn:E; [| exact IH].
  intros H. injection H as -> _. exact (tail_match_good _ _ _ E).
Qed.

(** Every group captured by a suggestion pattern is non-empty and has no
    '.', '!' or '?' except possibly as its last character. *)
Theorem findall_pat_groups :
  forall alts skip s, Forall good_group (findall_pat alts skip s).
Proof.
  intros alts skip s. revert skip. induction s as [| c r IH]; intros skip; simpl; [constructor |].
  destruct skip as [| k]; [| apply IH].
  destruct (try_alts alts (c :: r)) as [[g n] |] eqn:E; [| apply IH].
  constructor; [exact (try_alts_good _ _ _ _ E) | apply IH].
Qed.

(** ** Report formatting *)

Lemma substr_refl (x : text) : substr x x.
Proof. exists [], []. rewrite app_nil_r. reflexivity. Qed.

Lemma substr_app_l (x a b : text) : substr x b -> substr x (a ++ b).
Proof. intros (p & q & ->). exists (a ++ p), q. rewrite <- app_assoc. reflexivity. Qed.

Lemma substr_app_r (x a b : text) : substr x a -> substr x (a ++ b).
Proof. intros (p & q & ->). exists p, (q ++ b). rewrite <- !app_assoc. reflexivity. Qed.

Ltac substr_find :=
  match goal with
  | |- substr ?x ?y => constr_eq x y; apply substr_refl
  | H : substr ?x' ?y' |- substr ?x ?y => constr_eq x x'; constr_eq y y'; exact H
  | |- substr ?x (?a ++ ?b) =>
      first [ apply (substr_app_r x a b); substr_find
            | apply (substr_app_l x a b); substr_find ]
  end.

Lemma substr_concat_map {A : Type} (f : A -> text) (l : list A) (y : A) :
  In y l -> substr (f y) (concat (map f l)).
Proof.
  induction l as [| z l IH]; simpl; [contradiction |].
  intros [-> | H]; [apply substr_app_r, substr_refl | apply substr_app_l, IH, H].
Qed.

Lemma severity_block_contains (heading sev : string) (issues : list Issue) (i : Issue) :
  In i issues -> severity i = sev -> substr (issue_line i) (severity_block heading sev issues).
Proof.
  intros Hin Hsev. unfold severity_block.
  assert (Hf : In i (filter (fun i => String.eqb (severity i) sev) issues))
    by (apply filter_In; split; [exact Hin | apply String.eqb_eq; exact Hsev]).
  destruct (filter _ issues) as [| j l] eqn:E; [contradiction |].
  pose proof (substr_concat_map issue_line _ _ Hf) as H. substr_find.
Qed.

Lemma numbered_nth (l : list text) :
  forall k i s, nth_error l i = Some s ->
  substr (show_Z (k + Z.of_nat i) ++ u ". "%string ++ s ++ nl) (numbered k l).
Proof.
  induction l as [| x l IH]; intros k i s Hi; [destruct i; discriminate |].
  cbn [numbered]. destruct i as [| i]; cbn [nth_error] in Hi.
  - injection Hi as <-. rewrite Z.add_0_r. exists [], (numbered (k + 1) l).
    rewrite app_nil_l, <- !app_assoc. reflexivity.
  - apply substr_app_l, substr_app_l, substr_app_l, substr_app_l.
    replace (k + Z.of_nat (S i)) with (k + 1 + Z.of_nat i) by lia.
    apply IH, Hi.
Qed.

Lemma format_output_contains (sc : Z) (cats : list (string * Z))
    (issues : list Issue) (suggestions : list text) :
  let out := format_output sc cats issues suggestions in
  substr (score_line sc) out /\
  Forall (fun i => severity i = "critical"%string \/ severity i = "warning"%string
                   \/ severity i = "info"%string -> substr (issue_line i) out) issues /\
  (forall i s, nth_error suggestions i = Some s ->
     substr (show_Z (1 + Z.of_nat i) ++ u ". "%string ++ s ++ nl) out) /\
  (issues <> [] -> substr issues_heading out) /\
  (suggestions <> [] -> substr suggestions_heading out).
Proof.
  intros out. unfold out, format_output. cbv beta zeta.
  split; [| split; [| split; [| split]]].
  - destruct issues, suggestions; substr_find.
  - apply Forall_forall. intros i Hin Hsev.
    destruct issues as [| i0 is]; [contradiction |].
    destruct Hsev as [Hs | [Hs | Hs]];
      [ pose proof (severity_block_contains "#### 🔴 CRÍTICO" _ _ _ Hin Hs) as H
      | pose proof (severity_block_contains "#### ⚠️ ADVERTENCIAS" _ _ _ Hin Hs) as H
      | pose proof (severity_block_contains "#### ℹ️ INFORMACIÓN" _ _ _ Hin Hs) as H ];
      destruct suggestions; substr_find.
  - intros i s Hi.
    destruct suggestions as [| s0 ss]; [destruct i; discriminate |].
    pose proof (numbered_nth _ 1 _ _ Hi) as H.
    destruct issues; substr_find.
  - intros Hne. destruct issues as [| i0 is]; [congruence |].
    destruct suggestions; substr_find.
  - intros Hne. destruct suggestions as [| s0 ss]; [congruence |].
    destruct issues; substr_find.
Qed.

Lemma extract_issues_severities (t : text) :
  Forall (fun i => severity i = "critical"%string \/ severity i = "warning"%string
                   \/ severity i = "info"%string) (extract_issues t).
Proof.
  apply issues_of_Forall. intros s. simpl. unfold determine_severity.
  destruct (any_in (lower s) SEVERITY_critical); [auto |].
  destruct (any_in (lower s) SEVERITY_warning); auto.
Qed.

Lemma digits_aux_range (fuel : nat) :
  forall n acc, 0 <= n -> Forall (fun c => 45 <= c <= 57) acc ->
  Forall (fun c => 45 <= c <= 57) (digits_aux fuel n acc).
Proof.
  induction fuel as [| f IH]; intros n acc Hn Hacc; simpl; [exact Hacc |].
  assert (Hd : Forall (fun c => 45 <= c <= 57) ((48 + n mod 10) :: acc)).
  { constructor; [| exact Hacc]. pose proof (Z.mod_pos_bound n 10). lia. }
  destruct (n <? 10); [exact Hd |].
  apply IH; [apply Z.div_pos; lia | exact Hd].
Qed.

Lemma show_Z_range (n : Z) : Forall (fun c => 45 <= c <= 57) (show_Z n).
Proof.
  unfold show_Z.
  assert (H : Forall (fun c => 45 <= c <= 57)
                (digits_aux (S (Z.to_nat (Z.log2 (Z.abs n)))) (Z.abs n) []))
    by (apply digits_aux_range; [lia | constructor]).
  destruct (n <? 0); [constructor; [lia | exact H] | exact H].
Qed.

Lemma filter_bar_digits (l : text) :
  Forall (fun c => 45 <= c <= 57) l -> filter is_bar_char l = [].
Proof.
  induction 1 as [| c l Hc _ IH]; [reflexivity |]. simpl.
  unfold is_bar_char. replace (c =? 9608) with false by lia.
  replace (c =? 9617) with false by lia. exact IH.
Qed.

Lemma filter_repeat_text (c n : Z) :
  is_bar_char c = true -> filter is_bar_char (repeat_text [c] n) = repeat c (Z.to_nat n).
Proof.
  intros Hc. unfold repeat_text. induction (Z.to_nat n) as [| m IH]; [reflexivity |].
  simpl. rewrite Hc, IH. reflexivity.
Qed.

Lemma category_line_bar_gen (k : string) (v : Z) :
  In k ["contrast"; "spacing"; "alignment"; "hierarchy"]%string ->
  filter is_bar_char (category_line (k, v))
  = repeat 9608 (Z.to_nat (v / 10)) ++ repeat 9617 (Z.to_nat (10 - v / 10)).
Proof.
  intros Hk. unfold category_line. cbv beta iota zeta.
  assert (Hn : exists nm, lookup_name k category_names = Some nm /\ filter is_bar_char nm = []).
  { simpl in Hk. destruct Hk as [<- | [<- | [<- | [<- | []]]]];
      eexists; (split; [reflexivity | vm_compute; reflexivity]). }
  destruct Hn as (nm & E & Hnm). rewrite E. cbv beta iota.
  change (u "█"%string) with [9608]. change (u "░"%string) with [9617].
  rewrite !filter_app, Hnm, (filter_bar_digits _ (show_Z_range v)),
    !filter_repeat_text by reflexivity.
  change (filter is_bar_char (u "**"%string)) with (@nil Z).
  change (filter is_bar_char (u ":** "%string)) with (@nil Z).
  change (filter is_bar_char (u " `"%string)) with (@nil Z).
  change (filter is_bar_char (u "/100`"%string)) with (@nil Z).
  change (filter is_bar_char nl) with (@nil Z).
  rewrite !app_nil_l, app_nil_r. reflexivity.
Qed.

Lemma category_keys (c : string) (kws : list text) :
  In (c, kws) CATEGORY_KEYWORDS -> In c ["contrast"; "spacing"; "alignment"; "hierarchy"]%string.
Proof.
  intros H. change ["contrast"; "spacing"; "alignment"; "hierarchy"]%string
    with (map fst CATEGORY_KEYWORDS).
  apply (in_map fst _ _ H).
Qed.

(** The report lists the score line, each issue line, the line
    [f"{i}. {suggestion}"] of the i-th suggestion (counted from 1), and the
    issues and suggestions headings when those lists are non-empty. *)
Theorem format_output_lists_all :
  forall (sc : Z) (cats : list (string * Z)) (issues : list Issue) (suggestions : list text),
  let out := format_output sc cats issues suggestions in
  substr (score_line sc) out /\
  Forall (fun i => severity i = "critical"%string \/ severity i = "warning"%string
                   \/ severity i = "info"%string -> substr (issue_line i) out) issues /\
  (forall i s, nth_error suggestions i = Some s ->
     substr (show_Z (1 + Z.of_nat i) ++ u ". "%string ++ s ++ nl) out) /\
  (issues <> [] -> substr issues_heading out) /\
  (suggestions <> [] -> substr suggestions_heading out).
Proof. intros sc cats issues suggestions. exact (format_output_contains sc cats issues suggestions). Qed.

Lemma format_output_lists_all_witness :
  substr (issue_line (mkIssue "critical" contrast_spacing))
    (format_output 70 [] [mkIssue "critical" contrast_spacing] [adjust_grid]) /\
  substr (show_Z (1 + Z.of_nat 0) ++ u ". "%string ++ adjust_grid ++ nl)
    (format_output 70 [] [mkIssue "critical" contrast_spacing] [adjust_grid]).
Proof.
  destruct (format_output_lists_all 70 [] [mkIssue "critical" contrast_spacing] [adjust_grid])
    as (_ & Hi & Hs & _ & _).
  split.
  - inversion Hi as [| i l Hi0 _ E]. apply Hi0. left. reflexivity.
  - apply Hs. reflexivity.
Defined.

(** The endpoint's report lists its score line, every issue line and the
    numbered line of every suggestion. *)
Theorem analyze_text_report_lists_all :
  forall t : text,
  let r := analyze_text t in
  substr (score_line (score r)) (formatted_output r) /\
  Forall (fun i => substr (issue_line i) (formatted_output r)) (issues r) /\
  (forall i s, nth_error (suggestions r) i = Some s ->
     substr (show_Z (1 + Z.of_nat i) ++ u ". "%string ++ s ++ nl) (formatted_output r)).
Proof.
  intros t r. unfold r, analyze_text. cbv beta zeta.
  cbn [score issues suggestions formatted_output].
  destruct (format_output_contains (calculate_score t) (calculate_category_scores t)
              (extract_issues t) (extract_suggestions t)) as (H1 & H2 & H3 & _ & _).
  split; [exact H1 | split; [| exact H3]].
  pose proof (extract_issues_severities t) as Hs.
  apply Forall_forall. intros i Hin.
  rewrite Forall_forall in H2, Hs. apply H2, Hs; exact Hin.
Qed.

Lemma analyze_text_report_lists_all_witness :
  nth_error (suggestions (analyze_text adjust_grid)) 0
    = Some (nth 0 (suggestions (analyze_text adjust_grid)) []) /\
  substr (show_Z (1 + Z.of_nat 0) ++ u ". "%string
          ++ nth 0 (suggestions (analyze_text adjust_grid)) [] ++ nl)
    (formatted_output (analyze_text adjust_grid)).
Proof.
  assert (H : nth_error (suggestions (analyze_text adjust_grid)) 0
              = Some (nth 0 (suggestions (analyze_text adjust_grid)) [])) by (vm_compute; reflexivity).
  split; [exact H |].
  destruct (analyze_text_report_lists_all adjust_grid) as (_ & _ & Hs).
  exact (Hs 0%nat _ H).
Defined.

Theorem category_line_bar :
  forall (k : string) (v : Z),
  In k ["contrast"; "spacing"; "alignment"; "hierarchy"]%string ->
  0 <= v <= 100 ->
  filter is_bar_char (category_line (k, v))
  = repeat 9608 (Z.to_nat (v / 10)) ++ repeat 9617 (Z.to_nat (10 - v / 10)) /\
  (Z.to_nat (v / 10) + Z.to_nat (10 - v / 10) = 10)%nat.
Proof.
  intros k v Hk Hv. split; [exact (category_line_bar_gen k v Hk) |].
  assert (0 <= v / 10 <= 10) by (split; [apply Z.div_pos | apply Z.div_le_upper_bound]; lia).
  lia.
Qed.

Lemma category_line_bar_witness :
  In "contrast"%string ["contrast"; "spacing"; "alignment"; "hierarchy"]%string /\
  0 <= 85 <= 100 /\
  filter is_bar_char (category_line ("contrast"%string, 85))
  = repeat 9608 (Z.to_nat (85 / 10)) ++ repeat 9617 (Z.to_nat (10 - 85 / 10)) /\
  (Z.to_nat (85 / 10) + Z.to_nat (10 - 85 / 10) = 10)%nat.
Proof.
  split; [left; reflexivity |]. split; [lia |].
  apply category_line_bar; [left; reflexivity | lia].
Defined.

Theorem analyze_text_category_bars :
  forall t : text,
  Forall (fun kv : string * Z =>
            exists f, (5 <= f <= 10)%nat /\
            filter is_bar_char (category_line kv) = repeat 9608 f ++ repeat 9617 (10 - f))
         (categories (analyze_text t)).
Proof.
  intros t. unfold analyze_text. cbv beta zeta. cbn [categories].
  unfold calculate_category_scores. apply Forall_forall.
  intros [k v] Hin. apply in_map_iff in Hin.
  destruct Hin as ([c kws] & Heq & Hin). injection Heq as <- <-.
  destruct (category_score_spec t kws) as [_ Hv].
  set (v := category_score t kws) in *.
  exists (Z.to_nat (v / 10)).
  assert (5 <= v / 10 <= 10)
    by (split; [apply Z.div_le_lower_bound | apply Z.div_le_upper_bound]; lia).
  split; [lia |].
  rewrite (category_line_bar_gen c v (category_keys c kws Hin)).
  f_equal. f_equal. lia.
Qed.
